(** * StatFilter (pipeline/stat_filter.go)

    A shallow embedding of heka's [StatFilter] plugin and the properties of
    its [Run] loop: how the per-message capture map is assembled, how every
    configured metric is turned into a [Stat], and how the stats reach the
    [StatAccumulator]. *)

From stdpp Require Import gmap strings list fin_maps.

Local Open Scope string_scope.
Local Open Scope list_scope.

(** ** The [message] package *)

Module message.

(** Modelled from the spec: the message accessor surface ([Message] and
    [Field] are declared in the [message] package, outside
    stat_filter.go).  A field exposes "a type discriminator (string-typed
    or other)" and its list of string values; a message exposes its
    Logger, Hostname, Type and Payload strings and "an ordered list of
    fields". *)
Inductive Field_ValueType : Set :=
| Field_STRING
| Field_OTHER.

Global Instance Field_ValueType_eq_dec : EqDecision Field_ValueType.
Proof. solve_decision. Defined.

Record Field : Set := mkField {
  Name : string;
  ValueType : Field_ValueType;
  ValueString : list string;
}.

Definition GetName (f : Field) : string := Name f.
Definition GetValueType (f : Field) : Field_ValueType := ValueType f.

Record Message : Set := mkMessage {
  Logger : string;
  Hostname : string;
  Type_ : string;
  Payload : string;
  Fields : list Field;
}.

Definition GetLogger (m : Message) : string := Logger m.
Definition GetHostname (m : Message) : string := Hostname m.
Definition GetType (m : Message) : string := Type_ m.
Definition GetPayload (m : Message) : string := Payload m.

End message.

(** ** Data of the pipeline package used by the filter *)

(** [type metric struct]: a single statsd-style metric template. *)
Record metric : Set := mkMetric {
  Type_ : string;
  Name : string;
  Value : string;
}.

(** Modelled from the spec: [Stat] is declared with the accumulator, in
    another file of the package.  The spec's emission has a bucket, a value
    and a modifier, the three string fields stat_filter.go assigns; the zero
    value of [var stat Stat] has every field empty. *)
Record Stat : Set := mkStat {
  Bucket : string;
  Value_ : string;
  Modifier : string;
}.

Definition zero_Stat : Stat := mkStat "" "" "".

Definition set_Bucket (v : string) (s : Stat) : Stat :=
  mkStat v (Value_ s) (Modifier s).
Definition set_Value (v : string) (s : Stat) : Stat :=
  mkStat (Bucket s) v (Modifier s).
Definition set_Modifier (v : string) (s : Stat) : Stat :=
  mkStat (Bucket s) (Value_ s) v.

(** [type StatFilter struct]. *)
Record StatFilter : Type := mkStatFilter {
  metrics : gmap string metric;
  statAccumName : string;
}.

(** [type StatFilterConfig struct]. *)
Record StatFilterConfig : Type := mkStatFilterConfig {
  Metric : gmap string metric;
  StatAccumName : string;
}.

Definition ConfigStruct : StatFilterConfig :=
  {| Metric := ∅; StatAccumName := "StatAccumInput" |}.

Definition Init (conf : StatFilterConfig) : StatFilter :=
  {| metrics := Metric conf; statAccumName := StatAccumName conf |}.

(** Modelled from the spec: the work item, declared with the pipeline
    runner.  "Each item bundles a message and an optional pre-existing
    capture mapping": [plc.Pack] carries the message and [plc.Captures] may
    be the nil map. *)
Record PipelinePack : Set := mkPack {
  Message : message.Message;
}.

Record PipelineCapture : Type := mkPlc {
  Pack : PipelinePack;
  Captures : option (gmap string string);
}.

(** ** Capture assembly (Run, lines 93-108) *)

(** Body of [for _, field := range pack.Message.Fields].  The index
    expression [field.ValueString[0]] is a list lookup: [None] is the
    run-time panic of an index out of range. *)
Definition load_field (captures : gmap string string) (field : message.Field)
  : option (gmap string string) :=
  if bool_decide (message.GetValueType field = message.Field_STRING)
     && bool_decide (0 < length (message.ValueString field))
  then v ← message.ValueString field !! 0%nat;
       Some (<[message.GetName field := v]> captures)
  else Some captures.

Fixpoint load_fields (captures : gmap string string)
    (fields : list message.Field) : option (gmap string string) :=
  match fields with
  | [] => Some captures
  | field :: rest =>
      captures' ← load_field captures field;
      load_fields captures' rest
  end.

(** [captures = plc.Captures; if captures == nil { make }] followed by the
    four metadata assignments of lines 99-102. *)
Definition load_metadata (pack : PipelinePack)
    (upstream : option (gmap string string)) : gmap string string :=
  let captures := default ∅ upstream in
  let captures := <["Logger" := message.GetLogger (Message pack)]> captures in
  let captures := <["Hostname" := message.GetHostname (Message pack)]> captures in
  let captures := <["Type" := message.GetType (Message pack)]> captures in
  <["Payload" := message.GetPayload (Message pack)]> captures.

Definition load_captures (plc : PipelineCapture)
  : option (gmap string string) :=
  load_fields (load_metadata (Pack plc) (Captures plc))
              (message.Fields (Message (Pack plc))).

(** *** Vocabulary for the statements about captures *)

(** A field that passes the guard of line 105. *)
Definition injects (field : message.Field) : bool :=
  bool_decide (message.GetValueType field = message.Field_STRING)
  && bool_decide (0 < length (message.ValueString field)).

(** The last field named [k] that passes the guard, if any: later
    assignments to the same key overwrite earlier ones. *)
Definition winner (k : string) (fields : list message.Field)
  : option message.Field :=
  last (filter (λ f, injects f = true ∧ message.GetName f = k) fields).

Definition metadata (m : message.Message) (k : string) : option string :=
  if decide (k = "Payload") then Some (message.GetPayload m)
  else if decide (k = "Type") then Some (message.GetType m)
  else if decide (k = "Hostname") then Some (message.GetHostname m)
  else if decide (k = "Logger") then Some (message.GetLogger m)
  else None.

(** ** Resolving one metric (Run, lines 112-121) *)

(** The [switch met.Type_] of lines 113-120.  It has no [default] branch:
    for any other string the record is left as it is. *)
Definition switch_Type_ (met : metric) (stat : Stat) : Stat :=
  if decide (Type_ met = "Counter") then set_Modifier "" stat
  else if decide (Type_ met = "Timer") then set_Modifier "ms" stat
  else if decide (Type_ met = "Gauge") then set_Modifier "g" stat
  else stat.

Definition recognized (kind : string) : bool :=
  bool_decide (kind = "Counter") || bool_decide (kind = "Timer")
  || bool_decide (kind = "Gauge").

(** The modifier the spec's table assigns to a kind. *)
Definition modifier_of (kind : string) : string :=
  if decide (kind = "Timer") then "ms"
  else if decide (kind = "Gauge") then "g"
  else "".

(** Modelled from the spec: the interface [StatAccumulator], declared with
    the accumulator.  It "must expose an accept(emission) -> bool operation
    (true = accepted, false = rejected)"; [DropStat] is a method of a live
    object, so besides the answer it gives the accumulator it leaves. *)
Class StatAccumulator (A : Type) : Type :=
  DropStat : A → Stat → A * bool.

(** Modelled from the spec: an [InputRunner] of the registry either
    exposes the accumulator-accept capability or does not; the type
    assertion [statAccumInput.(StatAccumulator)] succeeds on [AccumInput]
    only. *)
Inductive InputRunner (A : Type) : Type :=
| PlainInput
| AccumInput (a : A).
Arguments PlainInput {A}.
Arguments AccumInput {A} a.

Definition as_StatAccumulator {A} (ir : InputRunner A) : option A :=
  match ir with
  | PlainInput => None
  | AccumInput a => Some a
  end.

(** Modelled from the spec: [h.PipelineConfig()], the "registry of named
    pipeline inputs". *)
Record PipelineConfig (A : Type) : Type := mkPipelineConfig {
  InputRunners : gmap string (InputRunner A);
}.
Arguments InputRunners {A} _.
Arguments mkPipelineConfig {A} _.

(** What the run does to its collaborators, in order: a call of
    [statAccum.DropStat] with its answer, of [fr.LogError], of
    [pack.Recycle]. *)
Inductive Event : Type :=
| EvDropStat (stat : Stat) (sent : bool)
| EvLogError (err : string)
| EvRecycle (pack : PipelinePack).

(** Go leaves the order of [range] over a map unspecified, and it may
    differ from one execution of the loop to the next.  [visit n] is the
    order of the [n]-th execution; it yields every entry once. *)
Record RangeOrder : Type := mkRangeOrder {
  visit : nat → list (string * metric) → list (string * metric);
  visit_perm : ∀ n l, visit n l ≡ₚ l;
}.

Definition range_map (ro : RangeOrder) (n : nat) (m : gmap string metric)
  : list metric :=
  (visit ro n (map_to_list m)).*2.

(** ** The effects of [Run]: a state monad with panics *)

Record World (A : Type) : Type := mkWorld {
  accum : A;
  trace : list Event;
}.
Arguments accum {A} _.
Arguments trace {A} _.
Arguments mkWorld {A} _ _.

Definition M (A X : Type) : Type := World A → option (X * World A).

Global Instance M_ret {A} : MRet (M A) := λ X x w, Some (x, w).
Global Instance M_bind {A} : MBind (M A) := λ X Y f m w,
  match m w with
  | Some (x, w') => f x w'
  | None => None
  end.

Definition emit {A} (e : Event) : M A unit :=
  λ w, Some (tt, mkWorld (accum w) (trace w ++ [e])).

Definition or_panic {A X} (o : option X) : M A X :=
  λ w, match o with Some x => Some (x, w) | None => None end.

Definition drop_stat `{StatAccumulator A} (stat : Stat) : M A bool :=
  λ w, let '(a, sent) := DropStat (accum w) stat in
       Some (sent, mkWorld a (trace w ++ [EvDropStat stat sent])).

Fixpoint foldM {A X Y} (f : Y → X → M A Y) (y : Y) (l : list X) : M A Y :=
  match l with
  | [] => mret y
  | x :: l' => y' ← f y x; foldM f y' l'
  end.

(** The value returned by [Run], or a run-time panic. *)
Inductive RunResult : Type :=
| Returned (err : option string) (events : list Event)
| Panicked.

Section Run.
Context {A : Type} `{StatAccumulator A}.

(** [InterpolateString] lives in another file of the package and the
    [%s] rendering of a [Stat] in [fmt]; both are taken as given. *)
Variable InterpolateString : string → gmap string string → string.
Variable fmt_Stat : Stat → string.
Variable ro : RangeOrder.

(** Lines 112-121: the assignments to the one [stat] variable. *)
Definition resolve (captures : gmap string string) (met : metric)
    (stat : Stat) : Stat :=
  let stat := set_Bucket (InterpolateString (Name met) captures) stat in
  let stat := switch_Type_ met stat in
  set_Value (InterpolateString (Value met) captures) stat.

(** Body of [for _, met := range s.metrics]. *)
Definition run_metric (captures : gmap string string) (stat : Stat)
    (met : metric) : M A Stat :=
  let stat := resolve captures met stat in
  sent ← drop_stat stat;
  _ ← (if negb sent
       then emit (EvLogError ("Undelivered stat: " +:+ fmt_Stat stat))
       else mret tt);
  mret stat.

(** Body of [for plc := range inChan]; the loop carries [stat] and, in the
    model, the count of executions of the inner [range]. *)
Definition run_pack (s : StatFilter) (st : Stat * nat)
    (plc : PipelineCapture) : M A (Stat * nat) :=
  let pack := Pack plc in
  captures ← or_panic (load_captures plc);
  stat ← foldM (run_metric captures) st.1 (range_map ro st.2 (metrics s));
  _ ← emit (EvRecycle pack);
  mret (stat, S st.2).

(** [func (s *StatFilter) Run(fr FilterRunner, h PluginHelper) (err error)];
    [inChan] lists what the channel delivers before it is closed. *)
Definition Run (s : StatFilter) (inChan : list PipelineCapture)
    (h : PipelineConfig A) : RunResult :=
  match InputRunners h !! statAccumName s with
  | None =>
      Returned (Some ("No Input named: '" +:+ statAccumName s +:+ "'")) []
  | Some statAccumInput =>
      match as_StatAccumulator statAccumInput with
      | None =>
          Returned (Some ("Input '" +:+ statAccumName s
                          +:+ "' is not a StatAccumulator")) []
      | Some statAccum =>
          match foldM (run_pack s) (zero_Stat, 0%nat) inChan
                      (mkWorld statAccum []) with
          | Some (_, w) => Returned None (trace w)
          | None => Panicked
          end
      end
  end.

(** *** Vocabulary for the statements about runs *)

(** The stats handed to [DropStat] when the assignments of lines 112-121
    are made for each (captures, metric) pair of [jobs] in turn, starting
    from the record [stat]. *)
Fixpoint emissions (stat : Stat)
    (jobs : list (gmap string string * metric)) : list Stat :=
  match jobs with
  | [] => []
  | (captures, met) :: rest =>
      let stat' := resolve captures met stat in
      stat' :: emissions stat' rest
  end.

(** The answers of the accumulator to a sequence of stats, and the
    accumulator they leave. *)
Fixpoint answers (a : A) (stats : list Stat) : list bool :=
  match stats with
  | [] => []
  | stat :: rest => (DropStat a stat).2 :: answers (DropStat a stat).1 rest
  end.

Fixpoint accum_after (a : A) (stats : list Stat) : A :=
  match stats with
  | [] => a
  | stat :: rest => accum_after (DropStat a stat).1 rest
  end.

(** What one pass through the loop body of lines 112-124 leaves in the
    trace. *)
Definition submit_events (x : Stat * bool) : list Event :=
  EvDropStat x.1 x.2 ::
  (if x.2 then [] else [EvLogError ("Undelivered stat: " +:+ fmt_Stat x.1)]).

(** The capture map of a work item ([load_captures] never panics). *)
Definition captures_of (plc : PipelineCapture) : gmap string string :=
  default ∅ (load_captures plc).

(** Every (captures, metric) pair the run resolves, in the order it does
    so, when [n] executions of the inner loop came before. *)
Fixpoint resolutions (s : StatFilter) (n : nat)
    (inChan : list PipelineCapture) : list (gmap string string * metric) :=
  match inChan with
  | [] => []
  | plc :: rest =>
      (pair (captures_of plc) <$> range_map ro n (metrics s))
      ++ resolutions s (S n) rest
  end.

(** The events of one work item processed on its own. *)
Definition pack_events (s : StatFilter) (st : Stat * nat)
    (plc : PipelineCapture) (a : A) : list Event :=
  match run_pack s st plc (mkWorld a []) with
  | Some (_, w) => trace w
  | None => []
  end.

End Run.

(** Projections of a trace. *)
Definition dropped (tr : list Event) : list (Stat * bool) :=
  omap (λ e, match e with EvDropStat stat sent => Some (stat, sent)
                        | _ => None end) tr.

Definition logged (tr : list Event) : list string :=
  omap (λ e, match e with EvLogError err => Some err | _ => None end) tr.

Definition recycled (tr : list Event) : list PipelinePack :=
  omap (λ e, match e with EvRecycle pack => Some pack | _ => None end) tr.

Definition rejected (xs : list (Stat * bool)) : list (Stat * bool) :=
  filter (λ x, x.2 = false) xs.

(** The kind of the most recent metric of a recognized kind, and the
    modifier it left in the record. *)
Definition last_recognized (kinds : list string) : option string :=
  last (filter (λ k, recognized k = true) kinds).

Definition stale_modifier (kinds : list string) : string :=
  from_option modifier_of "" (last_recognized kinds).

Definition all_recognized (s : StatFilter) : bool :=
  forallb (λ x, recognized (Type_ x.2)) (map_to_list (metrics s)).

(** What became of each entry of the map in one execution of the inner
    loop: the entry, the stat resolved from it, and the answer. *)
Definition per_template (ro : RangeOrder) (s : StatFilter) (n : nat)
    (tr : list Event) : list ((string * metric) * (Stat * bool)) :=
  zip (visit ro n (map_to_list (metrics s))) (dropped tr).

(** ** Concrete collaborators for the examples *)

(** An interpolation that finds no placeholder in its template. *)
Definition verbatim (template : string) (_ : gmap string string) : string :=
  template.

(** Go's [%s] of a struct of strings. *)
Definition braces (stat : Stat) : string :=
  "{" +:+ Bucket stat +:+ " " +:+ Value_ stat +:+ " " +:+ Modifier stat +:+ "}".

(** An accumulator over a buffered channel nobody drains: [DropStat] is a
    non-blocking send, and [free] counts the slots left. *)
Record ChanAccum : Set := mkChanAccum { free : nat }.

Global Instance ChanAccum_StatAccumulator : StatAccumulator ChanAccum :=
  λ a _, match free a with
         | O => (a, false)
         | S k => (mkChanAccum k, true)
         end.

Definition in_order : RangeOrder :=
  {| visit := λ _ l, l; visit_perm := λ _ l, reflexivity l |}.

Definition reversed : RangeOrder :=
  {| visit := λ _ l, reverse l;
     visit_perm := λ _ l, reverse_Permutation l |}.

(** ** Example inputs *)

(** A message whose string field is named like a metadata key. *)
Definition msg_shadow : message.Message :=
  message.mkMessage "app" "web1" "access" "GET /"
    [message.mkField "Logger" message.Field_STRING ["spoofed"]].

Definition plc_shadow : PipelineCapture := mkPlc (mkPack msg_shadow) None.

(** A string field without values and a field of another type. *)
Definition field_empty : message.Field :=
  message.mkField "elapsed_ms" message.Field_STRING [].

Definition field_other : message.Field :=
  message.mkField "elapsed_ms" message.Field_OTHER ["42"].

Definition msg_plain : message.Message :=
  message.mkMessage "app" "web1" "access" "GET /" [field_empty; field_other].

Definition plc_plain : PipelineCapture := mkPlc (mkPack msg_plain) None.

(** A filter with a timer and a metric of a kind the switch does not
    list, one with a timer and a counter, and registries for them. *)
Definition sf_bogus : StatFilter :=
  {| metrics := <["a" := mkMetric "Timer" "t" "1"]>
                  (<["b" := mkMetric "Bogus" "b" "2"]> ∅);
     statAccumName := "StatAccumInput" |}.

Definition sf_two : StatFilter :=
  {| metrics := <["a" := mkMetric "Timer" "latency" "42"]>
                  (<["b" := mkMetric "Counter" "hits" "1"]> ∅);
     statAccumName := "StatAccumInput" |}.

Definition h_chan (slots : nat) : PipelineConfig ChanAccum :=
  {| InputRunners := {["StatAccumInput" := AccumInput (mkChanAccum slots)]} |}.

Definition h_empty : PipelineConfig ChanAccum := {| InputRunners := ∅ |}.

Definition h_plain : PipelineConfig ChanAccum :=
  {| InputRunners := {["StatAccumInput" := PlainInput]} |}.

(** An accumulator whose answer depends on the stat alone: it takes
    timers and nothing else. *)
Inductive TimersOnly : Set := timers_only.

Global Instance TimersOnly_StatAccumulator : StatAccumulator TimersOnly :=
  λ a stat, (a, bool_decide (Modifier stat = "ms")).

Definition h_timers : PipelineConfig TimersOnly :=
  {| InputRunners := {["StatAccumInput" := AccumInput timers_only]} |}.

(** Two string fields with values, under different names. *)
Definition field_user : message.Field :=
  message.mkField "user" message.Field_STRING ["ann"].

Definition field_elapsed : message.Field :=
  message.mkField "elapsed_ms" message.Field_STRING ["42"; "43"].

(** * Properties *)

(** ** Capture assembly *)

Lemma injects_head (f : message.Field) :
  injects f = true →
  ∃ v, message.ValueString f !! 0%nat = Some v
       ∧ head (message.ValueString f) = Some v.
Proof.
  unfold injects. intros Hi. apply andb_prop in Hi as [_ Hlen].
  apply bool_decide_eq_true in Hlen.
  destruct (message.ValueString f) as [|v vs]; simpl in *; [lia | eauto].
Qed.

Lemma injects_false (f : message.Field) :
  injects f = false ↔
  message.GetValueType f ≠ message.Field_STRING ∨ message.ValueString f = [].
Proof.
  unfold injects. rewrite andb_false_iff, !bool_decide_eq_false. split.
  - intros [Hty | Hlen]; [by left | right].
    destruct (message.ValueString f); [done | simpl in Hlen; lia].
  - intros [Hty | Hnil]; [by left | right]. rewrite Hnil. simpl. lia.
Qed.

Lemma load_field_injects (c : gmap string string) (f : message.Field) v :
  injects f = true → head (message.ValueString f) = Some v →
  load_field c f = Some (<[message.GetName f := v]> c).
Proof.
  intros Hi Hv. destruct (injects_head f Hi) as (v' & Hv' & Hh).
  assert (v' = v) as -> by congruence.
  unfold load_field. fold (injects f). rewrite Hi. by rewrite Hv'.
Qed.

Lemma load_field_skips (c : gmap string string) (f : message.Field) :
  injects f = false → load_field c f = Some c.
Proof. intros Hi. unfold load_field. fold (injects f). by rewrite Hi. Qed.

Lemma winner_cons (k : string) (f : message.Field) fs :
  winner k (f :: fs) =
  match winner k fs with
  | Some g => Some g
  | None => if decide (injects f = true ∧ message.GetName f = k)
            then Some f else None
  end.
Proof.
  unfold winner. rewrite filter_cons.
  destruct (filter _ fs) as [|g gs] eqn:Hfs.
  - by case_decide.
  - destruct (last (g :: gs)) eqn:Hl; [| by apply last_None in Hl].
    case_decide; [| done]. by rewrite last_cons, Hl.
Qed.

Lemma load_fields_lookup (fs : list message.Field) :
  ∀ c : gmap string string, ∃ c' : gmap string string,
    load_fields c fs = Some c'
    ∧ ∀ k, c' !! k = match winner k fs with
                     | Some f => head (message.ValueString f)
                     | None => c !! k
                     end.
Proof.
  induction fs as [|f fs IH]; intros c.
  - exists c. split; [done |]. intros k. by unfold winner.
  - destruct (injects f) eqn:Hi.
    + destruct (injects_head f Hi) as (v & _ & Hh).
      destruct (IH (<[message.GetName f := v]> c)) as (c' & Hc' & Hk).
      exists c'. split.
      * simpl. by rewrite (load_field_injects c f v Hi Hh).
      * intros k. rewrite Hk, winner_cons.
        destruct (winner k fs); [done |].
        case_decide as Hd.
        -- destruct Hd as [_ <-]. by rewrite lookup_insert_eq.
        -- rewrite lookup_insert_ne; [done |]. naive_solver.
    + destruct (IH c) as (c' & Hc' & Hk).
      exists c'. split.
      * simpl. by rewrite (load_field_skips c f Hi).
      * intros k. rewrite Hk, winner_cons.
        destruct (winner k fs); [done |].
        case_decide as Hd; [| done]. destruct Hd. congruence.
Qed.

Lemma load_metadata_lookup (pack : PipelinePack)
    (upstream : option (gmap string string)) (k : string) :
  load_metadata pack upstream !! k =
  match metadata (Message pack) k with
  | Some v => Some v
  | None => default ∅ upstream !! k
  end.
Proof.
  unfold load_metadata, metadata.
  repeat case_decide; subst; simplify_map_eq; done.
Qed.

Lemma load_captures_total (plc : PipelineCapture) :
  load_captures plc = Some (captures_of plc).
Proof.
  unfold captures_of, load_captures.
  by destruct (load_fields_lookup (message.Fields (Message (Pack plc)))
                 (load_metadata (Pack plc) (Captures plc))) as (c & -> & _).
Qed.

(** C1: the capture map of a work item is read as follows: a key named by
    a string-typed field with at least one value holds the first value of
    the last such field; otherwise Logger, Hostname, Type and Payload hold
    the message's accessors; otherwise the key holds what the upstream
    captures held. *)
Theorem C1_capture_precedence (plc : PipelineCapture) :
  ∃ captures : gmap string string,
    load_captures plc = Some captures
    ∧ ∀ k, captures !! k =
        match winner k (message.Fields (Message (Pack plc))) with
        | Some f => head (message.ValueString f)
        | None =>
            match metadata (Message (Pack plc)) k with
            | Some v => Some v
            | None => default ∅ (Captures plc) !! k
            end
        end.
Proof.
  destruct (load_fields_lookup (message.Fields (Message (Pack plc)))
              (load_metadata (Pack plc) (Captures plc))) as (c & Hc & Hk).
  exists c. split; [done |]. intros k.
  by rewrite Hk, load_metadata_lookup.
Qed.

Lemma load_fields_app (fs1 fs2 : list message.Field) :
  ∀ c : gmap string string,
    load_fields c (fs1 ++ fs2) = load_fields c fs1 ≫= λ c', load_fields c' fs2.
Proof.
  induction fs1 as [|f fs1 IH]; intros c; simpl; [done |].
  destruct (load_field c f) as [c1|]; simpl; [apply IH | done].
Qed.

Lemma load_fields_is_Some (fs : list message.Field) (c : gmap string string) :
  is_Some (load_fields c fs).
Proof. destruct (load_fields_lookup fs c) as (c' & -> & _). eauto. Qed.

(** C10: a field that is not string-typed, or is string-typed without any
    value, leaves the capture map as it is; the assembly does not fail on
    it, and the fields around it are loaded as if it were absent. *)
Theorem C10_guarded_first_value (c : gmap string string) (f : message.Field)
    (before after : list message.Field) :
  message.GetValueType f ≠ message.Field_STRING
    ∨ message.ValueString f = [] →
  load_field c f = Some c
  ∧ is_Some (load_fields c (before ++ f :: after))
  ∧ load_fields c (before ++ f :: after) = load_fields c (before ++ after).
Proof.
  intros Hf. apply injects_false in Hf.
  split; [by apply load_field_skips |].
  split; [apply load_fields_is_Some |].
  rewrite !load_fields_app.
  destruct (load_fields c before) as [c1|]; simpl; [| done].
  by rewrite (load_field_skips c1 f Hf).
Qed.

(** C10 at a string field without values, loaded after a field of another
    type. *)
Lemma C10_guarded_first_value_witness :
  load_field ∅ field_empty = Some ∅
  ∧ is_Some (load_fields ∅ ([field_other] ++ field_empty :: []))
  ∧ load_fields ∅ ([field_other] ++ field_empty :: [])
    = load_fields ∅ ([field_other] ++ []).
Proof.
  apply (C10_guarded_first_value ∅ field_empty [field_other] []).
  right. reflexivity.
Defined.

Lemma metadata_key_present (plc : PipelineCapture) (k v : string) :
  metadata (Message (Pack plc)) k = Some v →
  ∃ captures : gmap string string,
    load_captures plc = Some captures
    ∧ is_Some (captures !! k)
    ∧ (winner k (message.Fields (Message (Pack plc))) = None →
       captures !! k = Some v).
Proof.
  intros Hm.
  destruct (load_fields_lookup (message.Fields (Message (Pack plc)))
              (load_metadata (Pack plc) (Captures plc))) as (c & Hc & Hk).
  exists c. split; [done |].
  specialize (Hk k). rewrite load_metadata_lookup, Hm in Hk.
  destruct (winner k _) as [f|] eqn:Hw.
  - split; [| done]. rewrite Hk.
    unfold winner in Hw. apply last_Some in Hw as [l Hl].
    assert (f ∈ filter (λ f, injects f = true ∧ message.GetName f = k)
                  (message.Fields (Message (Pack plc)))) as Hin.
    { rewrite Hl. set_solver. }
    apply list_elem_of_filter in Hin as [[Hi _] _].
    destruct (injects_head f Hi) as (v' & _ & ->). eauto.
  - rewrite Hk. eauto.
Qed.

(** C7 (as the code has it): a work item without upstream captures gets a
    capture map that contains the keys Logger, Hostname, Type and Payload;
    each of them holds the message's accessor unless a string-typed field
    with at least one value has that name. *)
Theorem C7_metadata_keys (plc : PipelineCapture) :
  Captures plc = None ∨ Captures plc = Some ∅ →
  ∃ captures : gmap string string,
    load_captures plc = Some captures
    ∧ Forall (λ k, is_Some (captures !! k))
             ["Logger"; "Hostname"; "Type"; "Payload"]
    ∧ (winner "Logger" (message.Fields (Message (Pack plc))) = None →
       captures !! "Logger" = Some (message.GetLogger (Message (Pack plc))))
    ∧ (winner "Hostname" (message.Fields (Message (Pack plc))) = None →
       captures !! "Hostname"
       = Some (message.GetHostname (Message (Pack plc))))
    ∧ (winner "Type" (message.Fields (Message (Pack plc))) = None →
       captures !! "Type" = Some (message.GetType (Message (Pack plc))))
    ∧ (winner "Payload" (message.Fields (Message (Pack plc))) = None →
       captures !! "Payload"
       = Some (message.GetPayload (Message (Pack plc)))).
Proof.
  intros _. exists (captures_of plc).
  split; [apply load_captures_total |].
  pose proof (λ k v H, metadata_key_present plc k v H) as Hkey.
  assert (∀ k v, metadata (Message (Pack plc)) k = Some v →
            is_Some (captures_of plc !! k)
            ∧ (winner k (message.Fields (Message (Pack plc))) = None →
               captures_of plc !! k = Some v)) as Hk.
  { intros k v Hm. destruct (Hkey k v Hm) as (c & Hc & Hs & Hv).
    rewrite load_captures_total in Hc. by simplify_eq. }
  split.
  - repeat constructor; by eapply Hk.
  - repeat split; by eapply Hk.
Qed.

(** C7 at a message whose fields inject nothing. *)
Lemma C7_metadata_keys_witness :
  ∃ captures : gmap string string,
    load_captures plc_plain = Some captures
    ∧ captures !! "Logger" = Some "app"
    ∧ captures !! "Hostname" = Some "web1"
    ∧ captures !! "Type" = Some "access"
    ∧ captures !! "Payload" = Some "GET /".
Proof.
  destruct (C7_metadata_keys plc_plain (or_introl eq_refl))
    as (c & Hc & _ & HL & HH & HT & HP).
  exists c. split; [exact Hc |].
  split; [apply HL; reflexivity |].
  split; [apply HH; reflexivity |].
  split; [apply HT; reflexivity | apply HP; reflexivity].
Defined.

(** C7, refuted as stated: without upstream captures, a string field named
    Logger takes the key, and the key no longer holds the accessor. *)
Lemma C7_field_shadows_accessor :
  Captures plc_shadow = None
  ∧ ∃ captures : gmap string string,
      load_captures plc_shadow = Some captures
      ∧ captures !! "Logger" = Some "spoofed"
      ∧ captures !! "Logger"
        ≠ Some (message.GetLogger (Message (Pack plc_shadow))).
Proof.
  split; [done |].
  exists (captures_of plc_shadow). split; [apply load_captures_total |].
  by vm_compute.
Qed.

(** ** The run *)

Lemma last_filter_cons {X} (P : X → Prop) `{∀ x, Decision (P x)}
    (x : X) (l : list X) :
  last (filter P (x :: l)) =
  match last (filter P l) with
  | Some y => Some y
  | None => if decide (P x) then Some x else None
  end.
Proof.
  rewrite filter_cons.
  destruct (last (filter P l)) eqn:Hl.
  - case_decide; [| done]. by rewrite last_cons, Hl.
  - apply last_None in Hl. rewrite Hl. by case_decide.
Qed.

Lemma switch_Type__modifier (met : metric) (stat : Stat) :
  Modifier (switch_Type_ met stat) =
  if recognized (Type_ met) then modifier_of (Type_ met) else Modifier stat.
Proof.
  unfold switch_Type_, recognized, modifier_of.
  repeat case_decide; simplify_eq; try done;
    rewrite ?bool_decide_eq_true_2, ?bool_decide_eq_false_2 by done;
    simpl; try done; congruence.
Qed.

Lemma dropped_app (tr1 tr2 : list Event) :
  dropped (tr1 ++ tr2) = dropped tr1 ++ dropped tr2.
Proof. apply omap_app. Qed.

Lemma logged_app (tr1 tr2 : list Event) :
  logged (tr1 ++ tr2) = logged tr1 ++ logged tr2.
Proof. apply omap_app. Qed.

Lemma recycled_app (tr1 tr2 : list Event) :
  recycled (tr1 ++ tr2) = recycled tr1 ++ recycled tr2.
Proof. apply omap_app. Qed.


Section RunProperties.
Context {A : Type} `{StatAccumulator A}.
Variable InterpolateString : string → gmap string string → string.
Variable fmt_Stat : Stat → string.
Variable ro : RangeOrder.

Local Abbreviation resolve := (resolve InterpolateString).
Local Abbreviation emissions := (emissions InterpolateString).
Local Abbreviation run_metric := (run_metric InterpolateString fmt_Stat).
Local Abbreviation run_pack := (run_pack InterpolateString fmt_Stat ro).
Local Abbreviation Run := (Run InterpolateString fmt_Stat ro).
Local Abbreviation resolutions := (resolutions ro).
Local Abbreviation submit_events := (submit_events fmt_Stat).

Lemma resolve_modifier (c : gmap string string) (met : metric)
    (stat : Stat) :
  Modifier (resolve c met stat) =
  if recognized (Type_ met) then modifier_of (Type_ met) else Modifier stat.
Proof. unfold resolve. simpl. by rewrite switch_Type__modifier. Qed.

Lemma resolve_recognized (c : gmap string string) (met : metric)
    (stat : Stat) :
  recognized (Type_ met) = true →
  resolve c met stat =
  mkStat (InterpolateString (Name met) c) (InterpolateString (Value met) c)
         (modifier_of (Type_ met)).
Proof.
  intros Hr. pose proof (resolve_modifier c met stat) as Hm.
  rewrite Hr in Hm. rewrite <- Hm. unfold resolve. simpl.
  unfold switch_Type_. by repeat case_decide.
Qed.

Lemma dropped_submit_events (xs : list (Stat * bool)) :
  dropped (xs ≫= submit_events) = xs.
Proof.
  induction xs as [|[stat sent] xs IH]; [done |].
  rewrite bind_cons, dropped_app, IH. by destruct sent.
Qed.

Lemma logged_submit_events (xs : list (Stat * bool)) :
  logged (xs ≫= submit_events)
  = (λ x, "Undelivered stat: " +:+ fmt_Stat x.1) <$> rejected xs.
Proof.
  induction xs as [|[stat sent] xs IH]; [done |].
  rewrite bind_cons, logged_app, IH. unfold rejected.
  rewrite filter_cons. by destruct sent.
Qed.

Lemma recycled_submit_events (xs : list (Stat * bool)) :
  recycled (xs ≫= submit_events) = [].
Proof.
  induction xs as [|[stat sent] xs IH]; [done |].
  rewrite bind_cons, recycled_app, IH. by destruct sent.
Qed.

Lemma length_emissions (jobs : list (gmap string string * metric)) :
  ∀ stat, length (emissions stat jobs) = length jobs.
Proof.
  induction jobs as [|[c met] jobs IH]; intros stat; simpl; [done |].
  by rewrite IH.
Qed.

Lemma length_answers (stats : list Stat) :
  ∀ a, length (answers a stats) = length stats.
Proof.
  induction stats as [|stat stats IH]; intros a; simpl; [done |].
  by rewrite IH.
Qed.

Lemma emissions_app (jobs1 jobs2 : list (gmap string string * metric)) :
  ∀ stat,
    emissions stat (jobs1 ++ jobs2) =
    emissions stat jobs1
    ++ emissions (default stat (last (emissions stat jobs1))) jobs2.
Proof.
  induction jobs1 as [|[c met] jobs1 IH]; intros stat; simpl; [done |].
  rewrite IH. f_equal. f_equal. rewrite last_cons.
  by destruct (last (emissions _ jobs1)).
Qed.

(** The inner loop, as one equation. *)
Lemma foldM_run_metric (c : gmap string string) (mets : list metric) :
  ∀ stat (w : World A),
    let ems := emissions stat (pair c <$> mets) in
    foldM (run_metric c) stat mets w =
    Some (default stat (last ems),
          mkWorld (accum_after (accum w) ems)
                  (trace w
                   ++ (zip ems (answers (accum w) ems) ≫= submit_events))).
Proof.
  induction mets as [|met mets IH]; intros stat [a tr]; simpl.
  - unfold mret, M_ret. by rewrite app_nil_r.
  - unfold mbind, M_bind at 1. unfold run_metric at 1.
    unfold mbind, M_bind, drop_stat. simpl.
    destruct (DropStat a (resolve c met stat)) as [a' sent] eqn:Hd.
    simpl. rewrite last_cons.
    destruct sent; simpl; unfold mret, M_ret; simpl; rewrite IH; simpl;
      (destruct (last _); simpl; do 2 f_equal;
       by rewrite <- ?app_assoc).
Qed.

(** One work item, as one equation: the stats of every metric in the
    order of the [range], the log records of the rejected ones, then the
    recycling of the pack. *)
Lemma run_pack_eq (s : StatFilter) (st : Stat * nat)
    (plc : PipelineCapture) (w : World A) :
  let ems := emissions st.1 (pair (captures_of plc)
                               <$> range_map ro st.2 (metrics s)) in
  run_pack s st plc w =
  Some ((default st.1 (last ems), S st.2),
        mkWorld (accum_after (accum w) ems)
                (trace w
                 ++ (zip ems (answers (accum w) ems) ≫= submit_events)
                 ++ [EvRecycle (Pack plc)])).
Proof.
  unfold run_pack. rewrite load_captures_total.
  unfold mbind at 1, M_bind at 1. simpl.
  unfold mbind at 1, M_bind at 1. rewrite foldM_run_metric. simpl.
  unfold mbind, M_bind, emit, mret, M_ret. simpl.
  by rewrite <- app_assoc.
Qed.

Lemma foldM_run_pack (s : StatFilter) (inChan : list PipelineCapture) :
  ∀ (st : Stat * nat) (w : World A),
    ∃ (st' : Stat * nat) (w' : World A),
      foldM (run_pack s) st inChan w = Some (st', w')
      ∧ (dropped (trace w')).*1
        = (dropped (trace w)).*1
          ++ emissions st.1 (resolutions s st.2 inChan)
      ∧ recycled (trace w') = recycled (trace w) ++ (Pack <$> inChan).
Proof.
  induction inChan as [|plc inChan IH]; intros st w.
  - exists st, w. simpl. by rewrite !app_nil_r.
  - simpl. unfold mbind at 1, M_bind at 1. rewrite run_pack_eq.
    match goal with |- context [foldM _ ?st1 inChan ?w1] =>
      destruct (IH st1 w1) as (st' & w' & Hrun & Hd & Hr) end.
    exists st', w'. split; [exact Hrun |].
    simpl in Hd, Hr. split.
    + rewrite Hd, !dropped_app, dropped_submit_events, emissions_app.
      simpl. rewrite app_nil_r, fmap_app, <- app_assoc. do 2 f_equal.
      rewrite fst_zip; [done |]. by rewrite length_answers.
    + rewrite Hr, !recycled_app, recycled_submit_events. simpl.
      by rewrite <- app_assoc.
Qed.

(** A started run returns without error; its trace hands the stats of
    [resolutions] to the accumulator, one by one, and recycles the packs
    of the channel, one by one. *)
Lemma Run_started (s : StatFilter) (inChan : list PipelineCapture)
    (h : PipelineConfig A) (a : A) :
  InputRunners h !! statAccumName s = Some (AccumInput a) →
  ∃ tr, Run s inChan h = Returned None tr
        ∧ (dropped tr).*1 = emissions zero_Stat (resolutions s 0 inChan)
        ∧ recycled tr = Pack <$> inChan.
Proof.
  intros Hin. unfold Run. rewrite Hin. simpl.
  destruct (foldM_run_pack s inChan (zero_Stat, 0%nat) (mkWorld a []))
    as (st' & w' & -> & Hd & Hr).
  exists (trace w'). by split.
Qed.

(** The modifier of the [i]-th stat is the one of the most recent metric
    of a recognized kind, or the modifier the record started with. *)
Lemma emissions_modifier (jobs : list (gmap string string * metric)) :
  ∀ stat i em,
    emissions stat jobs !! i = Some em →
    Modifier em =
    from_option modifier_of (Modifier stat)
      (last_recognized (take (S i) ((λ j, Type_ j.2) <$> jobs))).
Proof.
  unfold last_recognized.
  induction jobs as [|[c met] jobs IH]; intros stat i em Hi; [done |].
  rewrite fmap_cons, firstn_cons, last_filter_cons. simpl.
  destruct i as [|i]; simpl in Hi.
  - simplify_eq. rewrite take_0. simpl.
    rewrite switch_Type__modifier. simpl. case_decide as Hr.
    + by rewrite Hr.
    + by apply not_true_is_false in Hr as ->.
  - rewrite (IH _ _ _ Hi). simpl. rewrite switch_Type__modifier. simpl.
    destruct (last (filter _ _)); [done |]. simpl.
    case_decide as Hr.
    + by rewrite Hr.
    + by apply not_true_is_false in Hr as ->.
Qed.

Lemma emissions_lookup (jobs : list (gmap string string * metric)) :
  ∀ stat i c met,
    jobs !! i = Some (c, met) →
    emissions stat jobs !! i
    = Some (resolve c met
              (match i with
               | O => stat
               | S j => default stat (emissions stat jobs !! j)
               end)).
Proof.
  induction jobs as [|[c0 met0] jobs IH]; intros stat i c met Hi; [done |].
  destruct i as [|i]; simpl in *; [by simplify_eq |].
  rewrite (IH _ _ _ _ Hi). destruct i as [|i]; [done |].
  simpl. destruct (emissions _ jobs !! i) eqn:He; [done |].
  apply lookup_ge_None in He. rewrite length_emissions in He.
  apply lookup_lt_Some in Hi. lia.
Qed.

Lemma Run_resolution (s : StatFilter) (inChan : list PipelineCapture)
    (h : PipelineConfig A) (a : A) (i : nat) (c : gmap string string)
    (met : metric) :
  InputRunners h !! statAccumName s = Some (AccumInput a) →
  resolutions s 0 inChan !! i = Some (c, met) →
  ∃ tr prev sent,
    Run s inChan h = Returned None tr
    ∧ (dropped tr).*1 = emissions zero_Stat (resolutions s 0 inChan)
    ∧ dropped tr !! i = Some (resolve c met prev, sent)
    ∧ match i with
      | O => prev = zero_Stat
      | S j => ∃ sent', dropped tr !! j = Some (prev, sent')
      end.
Proof.
  intros Hin Hi.
  destruct (Run_started s inChan h a Hin) as (tr & Hrun & Hd & _).
  pose proof (emissions_lookup _ zero_Stat _ _ _ Hi) as He.
  rewrite <- Hd in He.
  apply list_lookup_fmap_Some in He as ([stat sent] & Hst & Hl).
  simpl in Hst.
  destruct i as [|j].
  - exists tr, zero_Stat, sent. rewrite Hst. by repeat split.
  - destruct (dropped tr !! j) as [[prev sent']|] eqn:Hj.
    + exists tr, prev, sent.
      rewrite list_lookup_fmap, Hj in Hst. simpl in Hst.
      rewrite Hst. repeat split; eauto.
    + apply lookup_ge_None in Hj. apply lookup_lt_Some in Hl. lia.
Qed.

Lemma last_recognized_Some (kinds : list string) (k : string) :
  last_recognized kinds = Some k → recognized k = true.
Proof.
  unfold last_recognized. intros Hl. apply last_Some in Hl as [l Hl].
  assert (k ∈ filter (λ k, recognized k = true) kinds) as Hin.
  { rewrite Hl. set_solver. }
  by apply list_elem_of_filter in Hin as [? _].
Qed.

Lemma recognized_cases (k : string) :
  recognized k = true → k = "Counter" ∨ k = "Timer" ∨ k = "Gauge".
Proof.
  unfold recognized. rewrite !orb_true_iff, !bool_decide_eq_true. tauto.
Qed.

Lemma stale_modifier_empty (kinds : list string) :
  stale_modifier kinds = ""
  ↔ last_recognized kinds ≠ Some "Timer"
    ∧ last_recognized kinds ≠ Some "Gauge".
Proof.
  unfold stale_modifier.
  destruct (last_recognized kinds) as [k|] eqn:Hk; simpl; [| done].
  apply last_recognized_Some, recognized_cases in Hk as [-> | [-> | ->]];
    vm_compute; split; try done; intros [? ?]; congruence.
Qed.

(** C2: in a started run, the stat submitted for a metric whose kind is
    Counter, Timer or Gauge carries the modifier of that kind: empty, "ms"
    or "g".  Which captures were loaded and which metrics were resolved
    before it, in this work item or an earlier one, plays no part. *)
Theorem C2_recognized_kind_modifier (s : StatFilter)
    (inChan : list PipelineCapture) (h : PipelineConfig A) (a : A)
    (i : nat) (c : gmap string string) (met : metric) :
  InputRunners h !! statAccumName s = Some (AccumInput a) →
  resolutions s 0 inChan !! i = Some (c, met) →
  recognized (Type_ met) = true →
  ∃ tr stat sent,
    Run s inChan h = Returned None tr
    ∧ dropped tr !! i = Some (stat, sent)
    ∧ (Type_ met = "Counter" ∧ Modifier stat = ""
       ∨ Type_ met = "Timer" ∧ Modifier stat = "ms"
       ∨ Type_ met = "Gauge" ∧ Modifier stat = "g").
Proof.
  intros Hin Hi Hr.
  destruct (Run_resolution s inChan h a i c met Hin Hi)
    as (tr & prev & sent & Hrun & _ & Hd & _).
  exists tr, (resolve c met prev), sent.
  split; [done |]. split; [done |].
  rewrite resolve_modifier, Hr.
  apply recognized_cases in Hr as [Hk | [Hk | Hk]]; rewrite Hk; auto.
Qed.

(** C9: the record [stat] is one variable for the whole run.  In a started
    run, the stat submitted for a metric of an unrecognized kind carries
    the modifier of the stat submitted just before it, be it for the same
    work item or for the one before (and the empty modifier when it is the
    first of the run); that is the modifier of the most recent metric of a
    recognized kind, so it is empty exactly when that metric is neither a
    Timer nor a Gauge. *)
Theorem C9_unrecognized_kind_inherits_modifier (s : StatFilter)
    (inChan : list PipelineCapture) (h : PipelineConfig A) (a : A)
    (i : nat) (c : gmap string string) (met : metric) :
  InputRunners h !! statAccumName s = Some (AccumInput a) →
  resolutions s 0 inChan !! i = Some (c, met) →
  recognized (Type_ met) = false →
  let before := take i ((λ j, Type_ j.2) <$> resolutions s 0 inChan) in
  ∃ tr stat sent,
    Run s inChan h = Returned None tr
    ∧ dropped tr !! i = Some (stat, sent)
    ∧ match i with
      | O => Modifier stat = ""
      | S j => ∃ prev sent', dropped tr !! j = Some (prev, sent')
                             ∧ Modifier stat = Modifier prev
      end
    ∧ Modifier stat = stale_modifier before
    ∧ (Modifier stat = ""
       ↔ last_recognized before ≠ Some "Timer"
         ∧ last_recognized before ≠ Some "Gauge").
Proof.
  intros Hin Hi Hr before.
  destruct (Run_resolution s inChan h a i c met Hin Hi)
    as (tr & prev & sent & Hrun & Hem & Hd & Hprev).
  exists tr, (resolve c met prev), sent.
  split; [done |]. split; [done |].
  assert (Modifier (resolve c met prev) = stale_modifier before) as Hst.
  { assert (emissions zero_Stat (resolutions s 0 inChan) !! i
            = Some (resolve c met prev)) as He.
    { by rewrite <- Hem, list_lookup_fmap, Hd. }
    rewrite (emissions_modifier _ _ _ _ He).
    assert (((λ j : gmap string string * metric, Type_ j.2)
               <$> resolutions s 0 inChan) !! i = Some (Type_ met)) as Hk.
    { by rewrite list_lookup_fmap, Hi. }
    rewrite (take_S_r _ _ _ Hk). fold before.
    unfold stale_modifier, last_recognized.
    rewrite filter_app, filter_cons, filter_nil.
    case_decide; [congruence |]. by rewrite app_nil_r. }
  split; [| split; [done |]].
  - rewrite resolve_modifier, Hr. destruct i as [|j].
    + by rewrite Hprev.
    + destruct Hprev as [sent' Hj]. eauto.
  - rewrite Hst. apply stale_modifier_empty.
Qed.


(** C5: for one work item, whatever came before and however many stats are
    rejected, the events are those of the metrics followed by the
    recycling of the pack: one [Recycle], after a [DropStat] for every entry
    of the configured map.  Over a whole run that returns without error,
    the packs recycled are those of the channel, each once, in order; a run
    that returns an error has recycled nothing. *)
Theorem C5_recycle_once_after_dispatch (s : StatFilter) (st : Stat * nat)
    (plc : PipelineCapture) (w : World A) :
  (∃ dispatch st' a',
     run_pack s st plc w
     = Some (st', mkWorld a' (trace w ++ dispatch ++ [EvRecycle (Pack plc)]))
     ∧ recycled dispatch = []
     ∧ length (dropped dispatch) = size (metrics s)
     ∧ recycled (dispatch ++ [EvRecycle (Pack plc)]) = [Pack plc])
  ∧ ∀ (inChan : list PipelineCapture) (h : PipelineConfig A),
      match Run s inChan h with
      | Returned None tr => recycled tr = Pack <$> inChan
      | Returned (Some _) tr => tr = []
      | Panicked => False
      end.
Proof.
  split.
  - rewrite run_pack_eq. do 3 eexists. split; [reflexivity |].
    split; [apply recycled_submit_events |].
    split.
    + rewrite dropped_submit_events, length_zip, length_answers,
        Nat.min_id, length_emissions.
      unfold range_map. rewrite !length_fmap, (visit_perm ro).
      apply length_map_to_list.
    + by rewrite recycled_app, recycled_submit_events.
  - intros inChan h.
    destruct (InputRunners h !! statAccumName s) as [[|a]|] eqn:Hin.
    + unfold Run. by rewrite Hin.
    + by destruct (Run_started s inChan h a Hin) as (tr & -> & _ & Hr).
    + unfold Run. by rewrite Hin.
Qed.

(** C6: when no input is registered under the configured name, or the one
    registered is not a [StatAccumulator], [Run] returns an error whose text
    contains that name, and nothing has happened: no stat was submitted,
    no pack recycled, whatever the channel holds. *)
Theorem C6_startup_error (s : StatFilter) (inChan : list PipelineCapture)
    (h : PipelineConfig A) :
  InputRunners h !! statAccumName s = None
  ∨ (∃ ir, InputRunners h !! statAccumName s = Some ir
           ∧ as_StatAccumulator ir = None) →
  ∃ err,
    Run s inChan h = Returned (Some err) []
    ∧ (err = "No Input named: '" +:+ statAccumName s +:+ "'"
       ∨ err = "Input '" +:+ statAccumName s +:+ "' is not a StatAccumulator")
    ∧ (∃ pre post, err = pre +:+ statAccumName s +:+ post).
Proof.
  intros [Hnone | (ir & Hir & Hna)]; unfold Run.
  - rewrite Hnone. eexists. split; [reflexivity |]. split; [by left |].
    by do 2 eexists.
  - rewrite Hir, Hna. eexists. split; [reflexivity |]. split; [by right |].
    by do 2 eexists.
Qed.

End RunProperties.

(** C2 at the Timer of [sf_two], first in the order of the map. *)
Lemma C2_recognized_kind_modifier_witness :
  ∃ tr stat sent,
    Run verbatim braces in_order sf_two [plc_plain] (h_chan 1)
    = Returned None tr
    ∧ dropped tr !! 0%nat = Some (stat, sent)
    ∧ Modifier stat = "ms".
Proof.
  destruct (C2_recognized_kind_modifier verbatim braces in_order
              sf_two [plc_plain] (h_chan 1) (mkChanAccum 1) 0
              (captures_of plc_plain) (mkMetric "Timer" "latency" "42")
              eq_refl eq_refl eq_refl)
    as (tr & stat & sent & Hrun & Hd & [[Hk _] | [[_ Hm] | [Hk _]]]).
  - discriminate Hk.
  - exists tr, stat, sent. split; [exact Hrun |]. split; [exact Hd | exact Hm].
  - discriminate Hk.
Defined.

(** C9 at the Bogus metric of [sf_bogus], resolved right after the
    Timer. *)
Lemma C9_unrecognized_kind_inherits_modifier_witness :
  ∃ tr stat sent,
    Run verbatim braces in_order sf_bogus [plc_plain] (h_chan 1)
    = Returned None tr
    ∧ dropped tr !! 1%nat = Some (stat, sent)
    ∧ (∃ prev sent', dropped tr !! 0%nat = Some (prev, sent')
                     ∧ Modifier stat = Modifier prev)
    ∧ Modifier stat = "ms".
Proof.
  destruct (C9_unrecognized_kind_inherits_modifier verbatim braces in_order
              sf_bogus [plc_plain] (h_chan 1) (mkChanAccum 1) 1
              (captures_of plc_plain) (mkMetric "Bogus" "b" "2")
              eq_refl eq_refl eq_refl)
    as (tr & stat & sent & Hrun & Hd & Hprev & Hm & _).
  exists tr, stat, sent.
  split; [exact Hrun |]. split; [exact Hd |]. split; [exact Hprev |].
  exact Hm.
Defined.

(** C6 at an empty registry and at a registry whose input is no
    accumulator. *)
Lemma C6_startup_error_witness :
  (∃ err,
     Run verbatim braces in_order sf_two [plc_plain] h_empty
     = Returned (Some err) []
     ∧ (err = "No Input named: 'StatAccumInput'"
        ∨ err = "Input 'StatAccumInput' is not a StatAccumulator")
     ∧ ∃ pre post, err = pre +:+ "StatAccumInput" +:+ post)
  ∧ (∃ err,
       Run verbatim braces in_order sf_two [plc_plain] h_plain
       = Returned (Some err) []
       ∧ (err = "No Input named: 'StatAccumInput'"
          ∨ err = "Input 'StatAccumInput' is not a StatAccumulator")
       ∧ ∃ pre post, err = pre +:+ "StatAccumInput" +:+ post).
Proof.
  split.
  - apply (C6_startup_error verbatim braces in_order sf_two [plc_plain]
             h_empty).
    left. reflexivity.
  - apply (C6_startup_error verbatim braces in_order sf_two [plc_plain]
             h_plain).
    right. exists PlainInput. split; reflexivity.
Defined.

(** ** The order of the [range] *)

Section OrderIndependence.
Context {A : Type} `{StatAccumulator A}.
Variable InterpolateString : string → gmap string string → string.
Variable fmt_Stat : Stat → string.

Local Abbreviation resolve := (resolve InterpolateString).
Local Abbreviation emissions := (emissions InterpolateString).
Local Abbreviation pack_events := (pack_events InterpolateString fmt_Stat).

Lemma emissions_recognized (c : gmap string string) (mets : list metric) :
  Forall (λ met, recognized (Type_ met) = true) mets →
  ∀ stat, emissions stat (pair c <$> mets)
          = (λ met, resolve c met zero_Stat) <$> mets.
Proof.
  induction 1 as [|met mets Hr _ IH]; intros stat; simpl; [done |].
  rewrite IH. f_equal.
  by rewrite !(resolve_recognized InterpolateString c met _ Hr).
Qed.

Lemma answers_stateless (accept : Stat → bool) (stats : list Stat) :
  (∀ a stat, (DropStat a stat).2 = accept stat) →
  ∀ a : A, answers a stats = accept <$> stats.
Proof.
  intros Hacc. induction stats as [|stat stats IH]; intros a; simpl; [done |].
  by rewrite Hacc, IH.
Qed.

Lemma dropped_pack_events (ro : RangeOrder) (s : StatFilter)
    (st : Stat * nat) (plc : PipelineCapture) (a : A) :
  let ems := emissions st.1 (pair (captures_of plc)
                               <$> range_map ro st.2 (metrics s)) in
  dropped (pack_events ro s st plc a) = zip ems (answers a ems).
Proof.
  unfold pack_events. rewrite run_pack_eq. simpl.
  rewrite dropped_app, dropped_submit_events. simpl. by rewrite app_nil_r.
Qed.

Lemma all_recognized_visit (ro : RangeOrder) (s : StatFilter) (n : nat) :
  all_recognized s = true →
  Forall (λ met, recognized (Type_ met) = true)
         (visit ro n (map_to_list (metrics s))).*2.
Proof.
  unfold all_recognized. intros Hall.
  rewrite (visit_perm ro). apply Forall_fmap, Forall_forall.
  intros x Hx. rewrite forallb_forall in Hall.
  apply Hall. by apply list_elem_of_In.
Qed.

Lemma zip_fmap_self {X Y} (f : X → Y) (l : list X) :
  zip l (f <$> l) = (λ x, (x, f x)) <$> l.
Proof. induction l as [|x l IH]; csimpl; [done | by rewrite IH]. Qed.

(** C8 (as the code has it): for one work item, when every configured
    metric has a recognized kind, any two orders of the [range] pair the
    entries of the map with the same stats; and when, moreover, the answer
    of the accumulator depends on the stat alone, they pair them with the
    same answers as well. *)
Theorem C8_order_independent_when_recognized (ro1 ro2 : RangeOrder)
    (s : StatFilter) (st1 st2 : Stat * nat) (plc : PipelineCapture) (a : A)
    (accept : Stat → bool) :
  all_recognized s = true →
  let tr1 := pack_events ro1 s st1 plc a in
  let tr2 := pack_events ro2 s st2 plc a in
  zip (visit ro1 st1.2 (map_to_list (metrics s))) (dropped tr1).*1
  ≡ₚ zip (visit ro2 st2.2 (map_to_list (metrics s))) (dropped tr2).*1
  ∧ ((∀ a' stat, (DropStat a' stat).2 = accept stat) →
     per_template ro1 s st1.2 tr1 ≡ₚ per_template ro2 s st2.2 tr2).
Proof.
  intros Hall tr1 tr2. unfold per_template, tr1, tr2.
  rewrite !dropped_pack_events. unfold range_map.
  rewrite !(emissions_recognized _ _ (all_recognized_visit _ s _ Hall)).
  split.
  - rewrite !fst_zip by (by rewrite length_answers).
    rewrite <- !list_fmap_compose, !zip_fmap_self.
    by rewrite !visit_perm.
  - intros Hacc. rewrite !(answers_stateless accept _ Hacc).
    rewrite !zip_fmap_self, <- !list_fmap_compose, !zip_fmap_self.
    by rewrite !visit_perm.
Qed.

End OrderIndependence.

(** C8 at a Timer and a Counter, visited in order and in reverse, with an
    accumulator that takes timers only. *)
Lemma C8_order_independent_when_recognized_witness :
  per_template in_order sf_two 0
    (pack_events verbatim braces in_order sf_two (zero_Stat, 0%nat)
       plc_plain timers_only)
  ≡ₚ per_template reversed sf_two 0
       (pack_events verbatim braces reversed sf_two (zero_Stat, 0%nat)
          plc_plain timers_only).
Proof.
  apply (C8_order_independent_when_recognized verbatim braces
           in_order reversed sf_two (zero_Stat, 0%nat) (zero_Stat, 0%nat)
           plc_plain timers_only (λ stat, bool_decide (Modifier stat = "ms"))).
  - reflexivity.
  - intros a' stat. reflexivity.
Defined.

(** C8, refuted as stated.  With a metric of an unrecognized kind the two
    orders of the [range] submit different stats; and with recognized kinds
    only, an accumulator with one free slot takes whichever stat comes
    first, so the answer each metric gets depends on the order. *)
Lemma C8_order_changes_results :
  ¬ (dropped (pack_events verbatim braces in_order sf_bogus
                (zero_Stat, 0%nat) plc_plain (mkChanAccum 2))).*1
    ≡ₚ (dropped (pack_events verbatim braces reversed sf_bogus
                   (zero_Stat, 0%nat) plc_plain (mkChanAccum 2))).*1
  ∧ all_recognized sf_two = true
  ∧ ¬ per_template in_order sf_two 0
        (pack_events verbatim braces in_order sf_two (zero_Stat, 0%nat)
           plc_plain (mkChanAccum 1))
      ≡ₚ per_template reversed sf_two 0
           (pack_events verbatim braces reversed sf_two (zero_Stat, 0%nat)
              plc_plain (mkChanAccum 1)).
Proof.
  split; [| split; [reflexivity |]].
  - intros Hp. vm_compute in Hp.
    apply Permutation_length_2_inv in Hp as [Hp | Hp]; discriminate Hp.
  - intros Hp. vm_compute in Hp.
    apply Permutation_length_2_inv in Hp as [Hp | Hp]; discriminate Hp.
Qed.

(** ** A metric of an unrecognized kind *)

(** C3, on the code: with a Timer and a metric of kind "Bogus" configured,
    the second work item of a run submits the stat of the Bogus metric with
    the modifier "ms", never with the empty one, in whichever order the
    [range] visits the map. *)
Theorem C3_unrecognized_kind_keeps_timer_modifier (ro : RangeOrder) :
  recognized "Bogus" = false
  ∧ ∃ tr,
      Run verbatim braces ro sf_bogus [plc_plain; plc_plain] (h_chan 4)
      = Returned None tr
      ∧ mkStat "b" "2" "ms" ∈ drop 2 (dropped tr).*1
      ∧ mkStat "b" "2" "" ∉ drop 2 (dropped tr).*1.
Proof.
  split; [reflexivity |].
  destruct (Run_started verbatim braces ro sf_bogus [plc_plain; plc_plain]
              (h_chan 4) (mkChanAccum 4) eq_refl) as (tr & Hrun & Hd & _).
  exists tr. split; [exact Hrun |]. rewrite Hd. clear Hd Hrun.
  assert (map_to_list (metrics sf_bogus)
          = [("a", mkMetric "Timer" "t" "1"); ("b", mkMetric "Bogus" "b" "2")])
    as Hm by (vm_compute; reflexivity).
  pose proof (visit_perm ro 0 (map_to_list (metrics sf_bogus))) as H0.
  pose proof (visit_perm ro 1 (map_to_list (metrics sf_bogus))) as H1.
  unfold resolutions, range_map.
  rewrite Hm in *. symmetry in H0, H1.
  apply Permutation_length_2_inv in H0 as [-> | ->];
    apply Permutation_length_2_inv in H1 as [-> | ->];
    cbn; unfold verbatim, resolve, switch_Type_; cbn;
    (split; [rewrite !elem_of_cons; auto |]);
    rewrite !not_elem_of_cons, elem_of_nil; repeat split; auto.
Qed.

(** * Further properties of the filter *)

(** ** The capture map as a whole *)

Lemma winner_Some (k : string) (fs : list message.Field) (f : message.Field) :
  winner k fs = Some f →
  f ∈ fs ∧ injects f = true ∧ message.GetName f = k.
Proof.
  unfold winner. intros Hl. apply last_Some in Hl as [l Hl].
  assert (f ∈ filter (λ f, injects f = true ∧ message.GetName f = k) fs)
    as Hin by (rewrite Hl; set_solver).
  apply list_elem_of_filter in Hin as [[Hi Hn] Hin]. done.
Qed.

Lemma winner_None (k : string) (fs : list message.Field) (f : message.Field) :
  winner k fs = None → f ∈ fs → injects f = true → message.GetName f ≠ k.
Proof.
  unfold winner. intros Hl Hin Hi Hn. apply last_None in Hl.
  assert (f ∈ filter (λ f, injects f = true ∧ message.GetName f = k) fs)
    as Hf by (by apply list_elem_of_filter).
  rewrite Hl in Hf. by apply elem_of_nil in Hf.
Qed.

Lemma captures_of_lookup (plc : PipelineCapture) (k : string) :
  captures_of plc !! k =
  match winner k (message.Fields (Message (Pack plc))) with
  | Some f => head (message.ValueString f)
  | None =>
      match metadata (Message (Pack plc)) k with
      | Some v => Some v
      | None => default ∅ (Captures plc) !! k
      end
  end.
Proof.
  destruct (load_fields_lookup (message.Fields (Message (Pack plc)))
              (load_metadata (Pack plc) (Captures plc))) as (c & Hc & Hk).
  unfold captures_of, load_captures. rewrite Hc. simpl.
  by rewrite Hk, load_metadata_lookup.
Qed.

Lemma metadata_is_Some (m : message.Message) (k : string) :
  is_Some (metadata m k)
  ↔ k ∈ ["Logger"; "Hostname"; "Type"; "Payload"].
Proof.
  unfold metadata. rewrite !elem_of_cons, elem_of_nil.
  repeat case_decide; split; intros Hk;
    first [ by eexists | tauto | by destruct Hk | intuition congruence ].
Qed.

(** X1: the keys of the capture map of a work item are the keys of the
    upstream captures, the four metadata keys, and the names of the
    string-typed fields with at least one value; nothing is dropped and
    nothing else is added. *)
Theorem captures_dom (plc : PipelineCapture) :
  load_captures plc = Some (captures_of plc)
  ∧ dom (captures_of plc)
    = dom (default ∅ (Captures plc))
      ∪ list_to_set ["Logger"; "Hostname"; "Type"; "Payload"]
      ∪ list_to_set (message.GetName
                       <$> filter (λ f, injects f = true)
                             (message.Fields (Message (Pack plc)))).
Proof.
  split; [apply load_captures_total |].
  apply set_eq. intros k.
  rewrite !elem_of_union, !elem_of_dom, !elem_of_list_to_set,
    captures_of_lookup, <- (metadata_is_Some (Message (Pack plc))),
    list_elem_of_fmap.
  destruct (winner k _) as [f|] eqn:Hw.
  - apply winner_Some in Hw as (Hin & Hi & Hn).
    destruct (injects_head f Hi) as (v & _ & ->). split; [| eauto].
    intros _. right. exists f. split; [done |].
    by apply list_elem_of_filter.
  - split.
    + destruct (metadata _ k); [left; right; eauto | by do 2 left].
    + intros [[Hup | Hmeta] | (f & Hn & Hf)].
      * destruct (metadata _ k); eauto.
      * destruct Hmeta as [v ->]. eauto.
      * apply list_elem_of_filter in Hf as [Hi Hin].
        by destruct (winner_None k _ f Hw Hin Hi).
Qed.

(** X2: loading is idempotent.  A work item that already carries the map
    loaded from its own message gets the same map again. *)
Theorem load_captures_idempotent (plc : PipelineCapture) :
  load_captures (mkPlc (Pack plc) (Some (captures_of plc)))
  = Some (captures_of plc).
Proof.
  rewrite load_captures_total. f_equal. apply map_eq. intros k.
  rewrite !captures_of_lookup. simpl.
  destruct (winner k _) eqn:Hw; [done |].
  destruct (metadata _ k) eqn:Hm; [done |].
  by rewrite captures_of_lookup, Hw, Hm.
Qed.

Lemma filter_eq_at_most_one {X Y} `{EqDecision Y} (g : X → Y) (k : Y)
    (l : list X) :
  NoDup (g <$> l) → (length (filter (λ x, g x = k) l) ≤ 1)%nat.
Proof.
  induction l as [|x l IH]; csimpl; [lia |].
  intros [Hx Hl]%NoDup_cons. rewrite filter_cons.
  case_decide as Hk; [| by apply IH]. simpl.
  destruct (filter (λ x, g x = k) l) as [|y ys] eqn:Hf; [simpl; lia |].
  assert (y ∈ filter (λ x, g x = k) l) as Hy by (rewrite Hf; left).
  apply list_elem_of_filter in Hy as [Hgy Hy].
  destruct Hx. rewrite Hk, <- Hgy. by apply list_elem_of_fmap_2.
Qed.

Lemma Permutation_short {X} (l l' : list X) :
  l ≡ₚ l' → (length l ≤ 1)%nat → l = l'.
Proof.
  intros Hp Hlen. destruct l as [|x [|y l]]; simpl in Hlen; [| | lia].
  - by apply Permutation_nil_l in Hp.
  - by apply Permutation_singleton_l in Hp.
Qed.

Lemma winner_Permutation (k : string) (fs fs' : list message.Field) :
  fs ≡ₚ fs' →
  NoDup (message.GetName <$> filter (λ f, injects f = true) fs) →
  winner k fs = winner k fs'.
Proof.
  intros Hp Hnd. unfold winner. f_equal.
  apply Permutation_short; [by rewrite Hp |].
  rewrite (list_filter_iff _ (λ f, message.GetName f = k ∧ injects f = true))
    by tauto.
  rewrite <- list_filter_filter.
  by apply (filter_eq_at_most_one message.GetName).
Qed.

(** X3: when the string-typed fields with a value have pairwise different
    names, the order of the fields in the message does not matter: any
    reordering loads the same capture map. *)
Theorem load_fields_order_irrelevant (c : gmap string string)
    (fs fs' : list message.Field) :
  fs ≡ₚ fs' →
  NoDup (message.GetName <$> filter (λ f, injects f = true) fs) →
  load_fields c fs = load_fields c fs'.
Proof.
  intros Hp Hnd.
  destruct (load_fields_lookup fs c) as (c1 & -> & H1).
  destruct (load_fields_lookup fs' c) as (c2 & -> & H2).
  f_equal. apply map_eq. intros k.
  by rewrite H1, H2, (winner_Permutation k fs fs' Hp Hnd).
Qed.

(** X3 at two fields of different names, swapped. *)
Lemma load_fields_order_irrelevant_witness :
  load_fields ∅ [field_user; field_elapsed]
  = load_fields ∅ [field_elapsed; field_user].
Proof.
  apply (load_fields_order_irrelevant ∅ [field_user; field_elapsed]
           [field_elapsed; field_user]).
  - apply perm_swap.
  - apply (bool_decide_unpack _). vm_compute. exact I.
Defined.

(** ** The run as a whole *)

Lemma events_length (tr : list Event) :
  length tr
  = (length (dropped tr) + length (logged tr) + length (recycled tr))%nat.
Proof.
  induction tr as [|e tr IH]; [done |].
  change (e :: tr) with ([e] ++ tr).
  rewrite dropped_app, logged_app, recycled_app, !length_app.
  destruct e; simpl; lia.
Qed.

Lemma foldM_app {A X Y} (f : Y → X → M A Y) (l1 l2 : list X) :
  ∀ (y : Y) (w : World A),
    foldM f y (l1 ++ l2) w =
    match foldM f y l1 w with
    | Some (y', w') => foldM f y' l2 w'
    | None => None
    end.
Proof.
  induction l1 as [|x l1 IH]; intros y w; simpl; [done |].
  unfold mbind, M_bind. destruct (f y x w) as [[y' w']|]; [apply IH | done].
Qed.

Section RunExtras.
Context {A : Type} `{StatAccumulator A}.
Variable InterpolateString : string → gmap string string → string.
Variable fmt_Stat : Stat → string.
Variable ro : RangeOrder.

Local Abbreviation resolve := (resolve InterpolateString).
Local Abbreviation emissions := (emissions InterpolateString).
Local Abbreviation run_pack := (run_pack InterpolateString fmt_Stat ro).
Local Abbreviation Run := (Run InterpolateString fmt_Stat ro).
Local Abbreviation resolutions := (resolutions ro).
Local Abbreviation submit_events := (submit_events fmt_Stat).
Local Abbreviation undelivered :=
  (λ x : Stat * bool, "Undelivered stat: " +:+ fmt_Stat x.1).

Lemma answers_app (stats1 stats2 : list Stat) :
  ∀ a : A,
    answers a (stats1 ++ stats2)
    = answers a stats1 ++ answers (accum_after a stats1) stats2.
Proof.
  induction stats1 as [|stat stats1 IH]; intros a; simpl; [done |].
  by rewrite IH.
Qed.

Lemma accum_after_app (stats1 stats2 : list Stat) :
  ∀ a : A,
    accum_after a (stats1 ++ stats2)
    = accum_after (accum_after a stats1) stats2.
Proof.
  induction stats1 as [|stat stats1 IH]; intros a; simpl; [done |].
  by rewrite IH.
Qed.

Lemma length_resolutions (s : StatFilter) (inChan : list PipelineCapture) :
  ∀ n, length (resolutions s n inChan)
       = (length inChan * size (metrics s))%nat.
Proof.
  induction inChan as [|plc inChan IH]; intros n; simpl; [done |].
  rewrite length_app, IH. unfold range_map.
  rewrite !length_fmap, (visit_perm ro), length_map_to_list. lia.
Qed.

(** What a stretch of the channel adds to the trace, from any state of the
    loop. *)
Lemma foldM_run_pack_segment (s : StatFilter)
    (inChan : list PipelineCapture) :
  ∀ (st : Stat * nat) (w : World A),
    ∃ (st' : Stat * nat) (w' : World A) (seg : list Event),
      foldM (run_pack s) st inChan w = Some (st', w')
      ∧ trace w' = trace w ++ seg
      ∧ (dropped seg).*1 = emissions st.1 (resolutions s st.2 inChan)
      ∧ (dropped seg).*2 = answers (accum w) (dropped seg).*1
      ∧ accum w' = accum_after (accum w) (dropped seg).*1
      ∧ logged seg = undelivered <$> rejected (dropped seg)
      ∧ recycled seg = Pack <$> inChan.
Proof.
  induction inChan as [|plc inChan IH]; intros st w.
  - exists st, w, []. simpl. by rewrite app_nil_r.
  - simpl. unfold mbind at 1, M_bind at 1. rewrite run_pack_eq.
    set (ems := emissions st.1 (pair (captures_of plc)
                                  <$> range_map ro st.2 (metrics s))).
    match goal with |- context [foldM _ ?st1 inChan ?w1] =>
      destruct (IH st1 w1) as (st' & w' & seg & Hrun & Htr & Hd & Ha & Hacc
                               & Hl & Hr) end.
    simpl in Htr, Hd, Ha, Hacc.
    assert (length (answers (accum w) ems) = length ems) as Hlen
      by apply length_answers.
    exists st', w',
      ((zip ems (answers (accum w) ems) ≫= submit_events)
       ++ [EvRecycle (Pack plc)] ++ seg).
    split; [exact Hrun |].
    rewrite !dropped_app, !logged_app, !recycled_app,
      dropped_submit_events, logged_submit_events, recycled_submit_events.
    change (dropped [EvRecycle (Pack plc)]) with (@nil (Stat * bool)).
    change (logged [EvRecycle (Pack plc)]) with (@nil string).
    change (recycled [EvRecycle (Pack plc)]) with [Pack plc].
    rewrite !app_nil_l, !fmap_app, fst_zip, snd_zip by lia.
    repeat split.
    + by rewrite Htr, <- !app_assoc.
    + by rewrite Hd, emissions_app.
    + by rewrite answers_app, Ha.
    + by rewrite accum_after_app, Hacc.
    + unfold rejected. by rewrite filter_app, fmap_app, Hl.
    + by rewrite Hr.
Qed.

(** A started run, as a whole. *)
Lemma Run_segment (s : StatFilter) (inChan : list PipelineCapture)
    (h : PipelineConfig A) (a : A) :
  InputRunners h !! statAccumName s = Some (AccumInput a) →
  ∃ tr, Run s inChan h = Returned None tr
        ∧ (dropped tr).*1 = emissions zero_Stat (resolutions s 0 inChan)
        ∧ (dropped tr).*2 = answers a (dropped tr).*1
        ∧ logged tr = undelivered <$> rejected (dropped tr)
        ∧ recycled tr = Pack <$> inChan.
Proof.
  intros Hin. unfold Run. rewrite Hin. simpl.
  destruct (foldM_run_pack_segment s inChan (zero_Stat, 0%nat)
              (mkWorld a []))
    as (st' & w' & seg & -> & Htr & Hd & Ha & _ & Hl & Hr).
  simpl in Htr. subst seg. eauto 10.
Qed.

Lemma only_recycles (tr : list Event) :
  dropped tr = [] → logged tr = [] → tr = EvRecycle <$> recycled tr.
Proof.
  induction tr as [|e tr IH]; [done |].
  change (e :: tr) with ([e] ++ tr).
  rewrite dropped_app, logged_app, recycled_app, fmap_app.
  destruct e; simpl; try done.
  intros Hd Hl. by rewrite <- IH.
Qed.

Lemma rejected_fmap_accept (accept : Stat → bool) (stats : list Stat) :
  rejected ((λ stat, (stat, accept stat)) <$> stats)
  = (λ stat, (stat, accept stat)) <$> filter (λ stat, accept stat = false) stats.
Proof.
  unfold rejected. induction stats as [|stat stats IH]; [done |].
  rewrite fmap_cons, !filter_cons, IH. simpl.
  by case_decide.
Qed.


(** X5: a started run calls [DropStat] once per configured metric and work
    item, recycles once per work item, and its trace holds nothing besides
    these calls and one log record per rejected stat. *)
Theorem Run_counts (s : StatFilter) (inChan : list PipelineCapture)
    (h : PipelineConfig A) (a : A) :
  InputRunners h !! statAccumName s = Some (AccumInput a) →
  ∃ tr, Run s inChan h = Returned None tr
        ∧ length (dropped tr) = (length inChan * size (metrics s))%nat
        ∧ length (recycled tr) = length inChan
        ∧ length tr
          = (length inChan * S (size (metrics s))
             + length (rejected (dropped tr)))%nat.
Proof.
  intros Hin.
  destruct (Run_segment s inChan h a Hin) as (tr & Hrun & Hd & _ & Hl & Hr).
  exists tr. split; [exact Hrun |].
  assert (length (dropped tr) = (length inChan * size (metrics s))%nat)
    as Hlen.
  { rewrite <- (length_fmap fst), Hd, length_emissions.
    apply length_resolutions. }
  assert (length (recycled tr) = length inChan) as Hrec
    by (by rewrite Hr, length_fmap).
  repeat split; [done | done |].
  rewrite (events_length tr), Hlen, Hrec, Hl, length_fmap. lia.
Qed.

(** X6: in a started run, the stat submitted for a metric carries the
    metric's name and value templates, interpolated with the captures of
    its work item, as bucket and value; this holds for every kind, also an
    unrecognized one. *)
Theorem Run_bucket_and_value (s : StatFilter)
    (inChan : list PipelineCapture) (h : PipelineConfig A) (a : A)
    (i : nat) (c : gmap string string) (met : metric) :
  InputRunners h !! statAccumName s = Some (AccumInput a) →
  resolutions s 0 inChan !! i = Some (c, met) →
  ∃ tr stat sent,
    Run s inChan h = Returned None tr
    ∧ dropped tr !! i = Some (stat, sent)
    ∧ Bucket stat = InterpolateString (Name met) c
    ∧ Value_ stat = InterpolateString (Value met) c.
Proof.
  intros Hin Hi.
  destruct (Run_resolution InterpolateString fmt_Stat ro s inChan h a i c
              met Hin Hi) as (tr & prev & sent & Hrun & _ & Hd & _).
  exists tr, (resolve c met prev), sent.
  split; [done |]. split; [done |].
  unfold resolve, switch_Type_. by repeat case_decide.
Qed.

(** X7: over a started run, the log holds one "Undelivered stat" record,
    with the rendering of the stat, for each stat the accumulator
    rejected, in the order of the rejections, and nothing else. *)
Theorem Run_log_records (s : StatFilter) (inChan : list PipelineCapture)
    (h : PipelineConfig A) (a : A) :
  InputRunners h !! statAccumName s = Some (AccumInput a) →
  ∃ tr, Run s inChan h = Returned None tr
        ∧ logged tr
          = (λ x, "Undelivered stat: " +:+ fmt_Stat x.1)
              <$> rejected (dropped tr).
Proof.
  intros Hin.
  destruct (Run_segment s inChan h a Hin) as (tr & Hrun & _ & _ & Hl & _).
  eauto.
Qed.

(** X8: over a started run, the one accumulator found at startup is asked
    about every stat, in the order the stats are resolved, each call
    finding the accumulator as the call before left it; the answers in the
    trace are its answers. *)
Theorem Run_answers (s : StatFilter) (inChan : list PipelineCapture)
    (h : PipelineConfig A) (a : A) :
  InputRunners h !! statAccumName s = Some (AccumInput a) →
  ∃ tr, Run s inChan h = Returned None tr
        ∧ (dropped tr).*1 = emissions zero_Stat (resolutions s 0 inChan)
        ∧ (dropped tr).*2
          = answers a (emissions zero_Stat (resolutions s 0 inChan)).
Proof.
  intros Hin.
  destruct (Run_segment s inChan h a Hin) as (tr & Hrun & Hd & Ha & _).
  exists tr. rewrite Ha, Hd. done.
Qed.

(** X9: when the answer of the accumulator depends on the stat alone, a
    started run logs exactly the stats that answer rejects; an accumulator
    that takes every stat leaves the log empty. *)
Theorem Run_log_of_stateless_accumulator (s : StatFilter)
    (inChan : list PipelineCapture) (h : PipelineConfig A) (a : A)
    (accept : Stat → bool) :
  InputRunners h !! statAccumName s = Some (AccumInput a) →
  (∀ a' stat, (DropStat a' stat).2 = accept stat) →
  ∃ tr, Run s inChan h = Returned None tr
        ∧ logged tr
          = (λ stat, "Undelivered stat: " +:+ fmt_Stat stat)
              <$> filter (λ stat, accept stat = false)
                    (emissions zero_Stat (resolutions s 0 inChan))
        ∧ ((∀ stat, accept stat = true) → logged tr = []).
Proof.
  intros Hin Hacc.
  destruct (Run_segment s inChan h a Hin) as (tr & Hrun & Hd & Ha & Hl & _).
  exists tr. split; [exact Hrun |].
  assert (dropped tr
          = (λ stat, (stat, accept stat))
              <$> emissions zero_Stat (resolutions s 0 inChan)) as Hdr.
  { rewrite <- (zip_fst_snd (dropped tr)), Ha, Hd.
    rewrite (answers_stateless accept _ Hacc). apply zip_fmap_self. }
  assert (logged tr
          = (λ stat, "Undelivered stat: " +:+ fmt_Stat stat)
              <$> filter (λ stat, accept stat = false)
                    (emissions zero_Stat (resolutions s 0 inChan))) as Hlog.
  { rewrite Hl, Hdr, rejected_fmap_accept, <- list_fmap_compose. done. }
  split; [exact Hlog |].
  intros Hall. rewrite Hlog.
  generalize (emissions zero_Stat (resolutions s 0 inChan)).
  clear -Hall. intros l. induction l as [|e l IH]; [done |].
  rewrite filter_cons. case_decide as He; [| exact IH].
  rewrite Hall in He. discriminate He.
Qed.

(** X10: what a started run has done for the work items delivered so far
    is not touched by those that follow: the trace for a longer channel
    starts with the trace for its prefix and goes on with the events of the
    remaining work items. *)
Theorem Run_prefix (s : StatFilter) (inChan more : list PipelineCapture)
    (h : PipelineConfig A) (a : A) :
  InputRunners h !! statAccumName s = Some (AccumInput a) →
  ∃ tr tr',
    Run s inChan h = Returned None tr
    ∧ Run s (inChan ++ more) h = Returned None (tr ++ tr')
    ∧ recycled tr' = Pack <$> more
    ∧ length (dropped tr') = (length more * size (metrics s))%nat.
Proof.
  intros Hin. unfold Run. rewrite Hin. simpl. rewrite foldM_app.
  destruct (foldM_run_pack_segment s inChan (zero_Stat, 0%nat)
              (mkWorld a []))
    as (st1 & w1 & seg1 & -> & Htr1 & _).
  destruct (foldM_run_pack_segment s more st1 w1)
    as (st2 & w2 & seg2 & -> & Htr2 & Hd2 & _ & _ & _ & Hr2).
  simpl in Htr1. subst seg1.
  exists (trace w1), seg2. rewrite Htr2.
  repeat split; [exact Hr2 |].
  by rewrite <- (length_fmap fst), Hd2, length_emissions, length_resolutions.
Qed.

(** X11: with no metric configured, a started run submits nothing and logs
    nothing: it recycles the pack of every work item, in order, and that is
    all. *)
Theorem Run_without_metrics (s : StatFilter)
    (inChan : list PipelineCapture) (h : PipelineConfig A) (a : A) :
  InputRunners h !! statAccumName s = Some (AccumInput a) →
  metrics s = ∅ →
  Run s inChan h = Returned None (EvRecycle <$> (Pack <$> inChan)).
Proof.
  intros Hin Hm.
  destruct (Run_segment s inChan h a Hin) as (tr & Hrun & Hd & _ & Hl & Hr).
  assert (dropped tr = []) as Hnone.
  { apply nil_length_inv.
    rewrite <- (length_fmap fst), Hd, length_emissions, length_resolutions,
      Hm, map_size_empty. lia. }
  rewrite Hrun. f_equal. rewrite <- Hr. apply only_recycles; [done |].
  by rewrite Hl, Hnone.
Qed.

End RunExtras.

(** X5 at two work items and the two metrics of [sf_two]. *)
Lemma Run_counts_witness :
  ∃ tr, Run verbatim braces in_order sf_two [plc_plain; plc_shadow] (h_chan 1)
        = Returned None tr
        ∧ length (dropped tr) = 4%nat
        ∧ length (recycled tr) = 2%nat
        ∧ length tr = (6 + length (rejected (dropped tr)))%nat.
Proof.
  apply (Run_counts verbatim braces in_order sf_two [plc_plain; plc_shadow]
           (h_chan 1) (mkChanAccum 1) eq_refl).
Defined.

(** X6 at the Bogus metric of [sf_bogus]. *)
Lemma Run_bucket_and_value_witness :
  ∃ tr stat sent,
    Run verbatim braces in_order sf_bogus [plc_plain] (h_chan 1)
    = Returned None tr
    ∧ dropped tr !! 1%nat = Some (stat, sent)
    ∧ Bucket stat = "b"
    ∧ Value_ stat = "2".
Proof.
  apply (Run_bucket_and_value verbatim braces in_order sf_bogus [plc_plain]
           (h_chan 1) (mkChanAccum 1) 1 (captures_of plc_plain)
           (mkMetric "Bogus" "b" "2") eq_refl eq_refl).
Defined.

(** X7 at an accumulator with one free slot. *)
Lemma Run_log_records_witness :
  ∃ tr, Run verbatim braces in_order sf_two [plc_plain] (h_chan 1)
        = Returned None tr
        ∧ logged tr
          = (λ x, "Undelivered stat: " +:+ braces x.1)
              <$> rejected (dropped tr).
Proof.
  apply (Run_log_records verbatim braces in_order sf_two [plc_plain]
           (h_chan 1) (mkChanAccum 1) eq_refl).
Defined.

(** X8 at an accumulator with one free slot: the first stat is taken, the
    second is not. *)
Lemma Run_answers_witness :
  ∃ tr, Run verbatim braces in_order sf_two [plc_plain] (h_chan 1)
        = Returned None tr
        ∧ (dropped tr).*1
          = [mkStat "latency" "42" "ms"; mkStat "hits" "1" ""]
        ∧ (dropped tr).*2 = [true; false].
Proof.
  destruct (Run_answers verbatim braces in_order sf_two [plc_plain]
              (h_chan 1) (mkChanAccum 1) eq_refl) as (tr & Hrun & Hd & Ha).
  exists tr. split; [exact Hrun |]. split; [exact Hd | exact Ha].
Defined.

(** X9 at an accumulator that takes timers only: the counter is logged. *)
Lemma Run_log_of_stateless_accumulator_witness :
  ∃ tr, Run verbatim braces in_order sf_two [plc_plain] h_timers
        = Returned None tr
        ∧ logged tr = ["Undelivered stat: {hits 1 }"].
Proof.
  assert (∀ (a' : TimersOnly) stat,
            (DropStat a' stat).2 = bool_decide (Modifier stat = "ms"))
    as Hacc by (intros a' stat; reflexivity).
  destruct (Run_log_of_stateless_accumulator verbatim braces in_order
              sf_two [plc_plain] h_timers
              timers_only (λ stat, bool_decide (Modifier stat = "ms"))
              eq_refl Hacc)
    as (tr & Hrun & Hlog & _).
  exists tr. split; [exact Hrun | exact Hlog].
Defined.

(** X10 at one work item followed by another. *)
Lemma Run_prefix_witness :
  ∃ tr tr',
    Run verbatim braces in_order sf_two [plc_plain] (h_chan 1)
    = Returned None tr
    ∧ Run verbatim braces in_order sf_two ([plc_plain] ++ [plc_shadow])
        (h_chan 1)
      = Returned None (tr ++ tr')
    ∧ recycled tr' = [Pack plc_shadow]
    ∧ length (dropped tr') = 2%nat.
Proof.
  apply (Run_prefix verbatim braces in_order sf_two [plc_plain] [plc_shadow]
           (h_chan 1) (mkChanAccum 1) eq_refl).
Defined.

(** X11 at the filter [Init] makes of the configuration [ConfigStruct]
    returns: the default name and no metric. *)
Lemma Run_without_metrics_witness :
  Run verbatim braces in_order (Init ConfigStruct) [plc_plain; plc_shadow]
    (h_chan 0)
  = Returned None [EvRecycle (Pack plc_plain); EvRecycle (Pack plc_shadow)].
Proof.
  apply (Run_without_metrics verbatim braces in_order (Init ConfigStruct)
           [plc_plain; plc_shadow] (h_chan 0) (mkChanAccum 0)
           eq_refl eq_refl).
Defined.

(** ** Recognized kinds only *)

Section RecognizedKinds.
Context {A : Type} `{StatAccumulator A}.
Variable InterpolateString : string → gmap string string → string.
Variable fmt_Stat : Stat → string.
Variable ro : RangeOrder.

Local Abbreviation emissions := (emissions InterpolateString).
Local Abbreviation Run := (Run InterpolateString fmt_Stat ro).
Local Abbreviation resolutions := (resolutions ro).
Local Abbreviation stat_of :=
  (λ j : gmap string string * metric,
     mkStat (InterpolateString (Name j.2) j.1)
            (InterpolateString (Value j.2) j.1)
            (modifier_of (Type_ j.2))).

Lemma emissions_of_recognized (jobs : list (gmap string string * metric)) :
  Forall (λ j, recognized (Type_ j.2) = true) jobs →
  ∀ stat, emissions stat jobs = stat_of <$> jobs.
Proof.
  induction 1 as [|[c met] jobs Hr _ IH]; intros stat; simpl; [done |].
  rewrite IH. f_equal.
  by rewrite (resolve_recognized InterpolateString c met _ Hr).
Qed.

Lemma resolutions_recognized (s : StatFilter)
    (inChan : list PipelineCapture) :
  all_recognized s = true →
  ∀ n, Forall (λ j, recognized (Type_ j.2) = true) (resolutions s n inChan).
Proof.
  intros Hall. induction inChan as [|plc inChan IH]; intros n; simpl.
  - constructor.
  - apply Forall_app. split; [| apply IH].
    apply Forall_fmap. unfold range_map.
    pose proof (all_recognized_visit ro s n Hall) as Hv.
    rewrite Forall_fmap in Hv. rewrite Forall_fmap.
    eapply Forall_impl; [exact Hv |]. done.
Qed.

(** X12: when every configured metric has a recognized kind, the stats of
    a started run do not depend on what was resolved before them: each is
    made of the interpolated name, the interpolated value and the modifier
    of the kind of its own metric. *)
Theorem Run_stats_of_recognized_kinds (s : StatFilter)
    (inChan : list PipelineCapture) (h : PipelineConfig A) (a : A) :
  InputRunners h !! statAccumName s = Some (AccumInput a) →
  all_recognized s = true →
  ∃ tr, Run s inChan h = Returned None tr
        ∧ (dropped tr).*1
          = (λ j, mkStat (InterpolateString (Name j.2) j.1)
                         (InterpolateString (Value j.2) j.1)
                         (modifier_of (Type_ j.2)))
              <$> resolutions s 0 inChan.
Proof.
  intros Hin Hall.
  destruct (Run_started InterpolateString fmt_Stat ro s inChan h a Hin)
    as (tr & Hrun & Hd & _).
  exists tr. split; [exact Hrun |].
  rewrite Hd. apply emissions_of_recognized.
  by apply resolutions_recognized.
Qed.

End RecognizedKinds.

(** X12 at a Timer and a Counter, over two work items. *)
Lemma Run_stats_of_recognized_kinds_witness :
  ∃ tr, Run verbatim braces in_order sf_two [plc_plain; plc_shadow] (h_chan 1)
        = Returned None tr
        ∧ (dropped tr).*1
          = [mkStat "latency" "42" "ms"; mkStat "hits" "1" "";
             mkStat "latency" "42" "ms"; mkStat "hits" "1" ""].
Proof.
  destruct (Run_stats_of_recognized_kinds verbatim braces in_order sf_two
              [plc_plain; plc_shadow] (h_chan 1) (mkChanAccum 1)
              eq_refl eq_refl) as (tr & Hrun & Hd).
  exists tr. split; [exact Hrun | exact Hd].
Defined.
